(** * Responders of the autorest package (autorest/responder.go)

    A shallow embedding of the response pipeline: a [Responder] reacts to an
    [*http.Response] and yields an [error]; a [RespondDecorator] wraps one
    responder into another; a handful of standard decorators close the body,
    decode JSON and check the status code.

    Go code runs against a store.  The store holds the [http.Response]
    structs behind response pointers, the state behind every response body
    (an [io.ReadCloser]) and the values behind the targets handed to the JSON
    decoder.  A computation either returns a value together with the new
    store, or panics (a nil dereference), leaving the store as it was at the
    moment of the panic. *)

From Stdlib Require Import ZArith String Ascii List.
From stdpp Require Import base option list strings gmap.

Open Scope string_scope.

(** ** Data of net/http, as far as the responders read it *)

(** A non-nil [*http.Response]. *)
Definition ptr : Type := nat.

(** The object behind a non-nil [io.ReadCloser]. *)
Definition body_ref : Type := nat.

(** The value behind the [v interface{}] given to [ByUnmarshallingJSON]. *)
Definition target_ref : Type := nat.

(** [http.Request]: the two fields the status error prints.  [URL] is a
    [*url.URL]; it is kept by the text [%v] prints for it, [None] being the
    nil pointer. *)
Record http_Request : Type := mk_Request {
  Method : string;
  URL : option string
}.

(** [http.Header] is [map[string][]string]. *)
Abbreviation http_Header := (gmap string (list string)).

(** [http.Response]. [Header] may be the nil map, [Body] the nil interface
    and [Request] the nil pointer. *)
Record http_Response : Type := mk_Response {
  Status : string;
  StatusCode : Z;
  Header : option http_Header;
  Body : option body_ref;
  Request : option http_Request
}.

(** What a response body still holds, and how often [Close] was called on
    it. *)
Record BodyState : Type := mk_Body {
  unread : string;
  closes : nat
}.

(** A non-nil [error].  [errorString] stands for every error known by its
    text alone ([errors.New], [fmt.Errorf], the errors of other packages);
    [baseError] is the error the package itself builds, with its package,
    method, status code and message. *)
Inductive error_value : Type :=
  | errorString (text : string)
  | baseError (packageType method : string) (statusCode : Z) (message : string).

(** The Go type [error]: [None] is nil. *)
Definition error : Type := option error_value.

(** What one call of [Decode] on a [json.Decoder] did: how many bytes it pulled
    from its reader, what the target holds afterwards, and the text of the
    error it returned, if any. *)
Record DecodeResult (V : Type) : Type := mk_Decode {
  pulled : nat;
  decoded : V;
  decode_err : option string
}.
Arguments mk_Decode {V} _ _ _.
Arguments pulled {V} _.
Arguments decoded {V} _.
Arguments decode_err {V} _.

(** The character [34], which a string literal cannot hold. *)
Definition dquote : string := String (ascii_of_nat 34) EmptyString.

(** The first [n] bytes of [s], and [s] without them. *)
Fixpoint string_take (n : nat) (s : string) : string :=
  match n, s with
  | S n', String c s' => String c (string_take n' s')
  | _, _ => EmptyString
  end.

Fixpoint string_drop (n : nat) (s : string) : string :=
  match n, s with
  | S n', String _ s' => string_drop n' s'
  | _, _ => s
  end.

(** [s] occurs in [msg]. *)
Definition occurs_in (s msg : string) : Prop :=
  exists before after : string, msg = before ++ s ++ after.

Section Autorest.

(** The type of decoded targets. *)
Context {V : Type}.

(** ** The store and the computations over it *)

Record World : Type := mk_World {
  responses : ptr -> http_Response;
  bodies : body_ref -> BodyState;
  targets : target_ref -> V
}.

Inductive Outcome (A : Type) : Type :=
  | Returned (a : A) (w : World)
  | Panicked (w : World).
Arguments Returned {A} _ _.
Arguments Panicked {A} _.

Definition Go (A : Type) : Type := World -> Outcome A.

#[global] Instance Go_ret : MRet Go := fun A a w => Returned a w.

#[global] Instance Go_bind : MBind Go := fun A B f m w =>
  match m w with
  | Returned a w' => f a w'
  | Panicked w' => Panicked w'
  end.

(** A nil dereference. *)
Definition panic {A : Type} : Go A := fun w => Panicked w.

(** [*resp]: the struct behind a response pointer. *)
Definition deref (resp : option ptr) : Go http_Response :=
  match resp with
  | Some p => fun w => Returned (responses w p) w
  | None => panic
  end.

(** [resp.Request.Method] and [resp.Request.URL] need the request. *)
Definition deref_Request (rq : option http_Request) : Go http_Request :=
  match rq with
  | Some q => mret q
  | None => panic
  end.

(** [resp.Body.Close()] on a non-nil body; the error [Close] returns is
    dropped by every caller. *)
Definition close_body (b : body_ref) (w : World) : World :=
  mk_World (responses w)
           (fun b' => if decide (b' = b)
                      then mk_Body (unread (bodies w b)) (S (closes (bodies w b)))
                      else bodies w b')
           (targets w).

Definition Body_Close (b : body_ref) : Go unit :=
  fun w => Returned tt (close_body b w).

(** ** The mechanism *)

(** The interface [Responder], whose one method [Respond] takes a response
    pointer and returns an [error], and its one implementation
    [ResponderFunc]. *)
Definition Responder : Type := option ptr -> Go error.

Definition ResponderFunc (rf : option ptr -> Go error) : Responder := rf.

(** The method [Respond] of a responder: [r.Respond(resp)]. *)
Definition Responder_Respond (r : Responder) (resp : option ptr) : Go error :=
  r resp.

Definition RespondDecorator : Type := Responder -> Responder.

(** [for _, decorate := range decorators { r = decorate(r) }; return r]. *)
Fixpoint DecorateResponder (r : Responder) (decorators : list RespondDecorator)
  : Responder :=
  match decorators with
  | [] => r
  | decorate :: rest => DecorateResponder (decorate r) rest
  end.

Definition CreateResponder (decorators : list RespondDecorator) : Responder :=
  DecorateResponder
    (ResponderFunc (fun r => mret None))
    decorators.

Definition Respond (r : option ptr) (decorators : list RespondDecorator)
  : Go error :=
  match r with
  | None => mret None
  | Some _ => Responder_Respond (CreateResponder decorators) r
  end.

(** ** The standard decorators *)

Definition ByIgnoring : RespondDecorator := fun r =>
  ResponderFunc (fun resp =>
    Responder_Respond r resp).

Definition ByClosing : RespondDecorator := fun r =>
  ResponderFunc (fun resp =>
    err ← Responder_Respond r resp;
    match resp with
    | Some _ =>
        rs ← deref resp;
        match Body rs with
        | Some b => Body_Close b
        | None => mret tt
        end
    | None => mret tt
    end;;
    mret err).

Definition ByClosingIfError : RespondDecorator := fun r =>
  ResponderFunc (fun resp =>
    err ← Responder_Respond r resp;
    match err, resp with
    | Some _, Some _ =>
        rs ← deref resp;
        match Body rs with
        | Some b => Body_Close b
        | None => mret tt
        end
    | _, _ => mret tt
    end;;
    mret err).

(** The decoder of encoding/json, which the package calls and does not
    define: from the bytes its reader can still deliver and the present
    value of the target, what [Decode] does. *)
Context (json_Decode : string -> V -> DecodeResult V).

(** The store once a decoder has pulled its bytes from the body [b] and
    left its value in the target [v]. *)
Definition after_Decode (b : body_ref) (v : target_ref) (d : DecodeResult V)
    (w : World) : World :=
  mk_World (responses w)
           (fun b' => if decide (b' = b)
                      then mk_Body (string_drop (pulled d) (unread (bodies w b)))
                                   (closes (bodies w b))
                      else bodies w b')
           (fun v' => if decide (v' = v) then decoded d else targets w v').

(** [b := bytes.Buffer{}; d := json.NewDecoder(io.TeeReader(body, &b));
    err = d.Decode(v)], returning [b.String()] with the error text.  The tee
    copies into [b] exactly the bytes the decoder pulls from the body, and
    those bytes are gone from the body.  Reading from the nil interface
    panics. *)
Definition Decode_through_tee (body : option body_ref) (v : target_ref)
  : Go (string * option string) :=
  match body with
  | None => panic
  | Some b => fun w =>
      let d := json_Decode (unread (bodies w b)) (targets w v) in
      Returned (string_take (pulled d) (unread (bodies w b)), decode_err d)
               (after_Decode b v d w)
  end.

(** [fmt.Errorf] at the format of [ByUnmarshallingJSON]: the decoder's error
    under [%v], the buffer under [%s] between two quote characters. *)
Definition decoding_error (err_text buffered : string) : error_value :=
  errorString ("Error (" ++ err_text ++ ") occurred decoding JSON ("
               ++ dquote ++ buffered ++ dquote ++ ")").

Definition ByUnmarshallingJSON (v : target_ref) : RespondDecorator := fun r =>
  ResponderFunc (fun resp =>
    err ← Responder_Respond r resp;
    match err with
    | None =>
        rs ← deref resp;
        '(b, derr) ← Decode_through_tee (Body rs) v;
        match derr with
        | Some e => mret (Some (decoding_error e b))
        | None => mret None
        end
    | Some _ => mret err
    end).

(** Modelled from the spec: [ResponseHasStatusCode] is a function of the
    package that responder.go calls and does not define.  The spec reads the
    test as: the response's status code is one of [codes].  It reads
    [resp.StatusCode], so a nil response panics. *)
Definition ResponseHasStatusCode (resp : option ptr) (codes : list Z) : Go bool :=
  rs ← deref resp;
  mret (bool_decide (StatusCode rs ∈ codes)).

(** [fmt]'s output for the format of the status error, two [%v] and a [%s]
    around fixed text; a nil URL prints as the nil pointer does. *)
Definition status_message (method : string) (url : option string) (status : string)
  : string :=
  method ++ " " ++ default "<nil>" url ++ " failed with " ++ status.

(** Modelled from the spec: [NewErrorWithStatusCode] is a function of the
    package that responder.go calls and does not define.  The spec has the
    synthesized error carry what it is given: here the package, the method,
    the status code and the formatted message. *)
Definition NewErrorWithStatusCode (packageType method : string) (statusCode : Z)
    (message : string) : error_value :=
  baseError packageType method statusCode message.

Definition WithErrorUnlessStatusCode (codes : list Z) : RespondDecorator := fun r =>
  ResponderFunc (fun resp =>
    err ← Responder_Respond r resp;
    unexpected ← match err with
                 | None => has ← ResponseHasStatusCode resp codes; mret (negb has)
                 | Some _ => mret false
                 end;
    if (unexpected : bool) then
      rs ← deref resp;
      rq ← deref_Request (Request rs);
      mret (Some (NewErrorWithStatusCode "autorest" "WithErrorUnlessStatusCode"
                    (StatusCode rs)
                    (status_message (Method rq) (URL rq) (Status rs))))
    else mret err).

(** [http.StatusOK]. *)
Definition http_StatusOK : Z := 200%Z.

Definition WithErrorUnlessOK : RespondDecorator :=
  WithErrorUnlessStatusCode [http_StatusOK].

(** ** The header accessors *)

(** [http.CanonicalHeaderKey], which the package calls and does not
    define. *)
Context (CanonicalHeaderKey : string -> string).

Definition ExtractHeader (header : string) (resp : option ptr) : Go (list string) :=
  match resp with
  | Some _ =>
      rs ← deref resp;
      match Header rs with
      | Some h => mret (default [] (h !! CanonicalHeaderKey header))
      | None => mret []
      end
  | None => mret []
  end.

Definition ExtractHeaderValue (header : string) (resp : option ptr) : Go string :=
  h ← ExtractHeader header resp;
  match h with
  | first :: _ => mret first
  | [] => mret ""
  end.

End Autorest.

Arguments World V : clear implicits.
Arguments Outcome V A : clear implicits.
Arguments Go V A : clear implicits.
Arguments Returned {V A} _ _.
Arguments Panicked {V A} _.
Arguments Responder V : clear implicits.
Arguments RespondDecorator V : clear implicits.

(** ** The composition the mechanism is specified by *)

(** Iterating the decorators in the given order, each step replacing the
    accumulated responder [r] by [d r]. *)
Definition iterate_in_order {V : Type} (r : Responder V)
    (decorators : list (RespondDecorator V)) : Responder V :=
  fold_left (fun acc d => d acc) decorators r.

(** The nesting [dn (... (d2 (d1 r)))], read off the decorators listed from
    the outermost one inwards. *)
Fixpoint wrap_from_outermost {V : Type} (r : Responder V)
    (outermost_first : list (RespondDecorator V)) : Responder V :=
  match outermost_first with
  | [] => r
  | d :: inner => d (wrap_from_outermost r inner)
  end.

(** The base responder of the spec: success for every response, the store
    untouched. *)
Definition always_succeeds {V : Type} : Responder V :=
  fun _ w => Returned None w.

(** What [ByClosing] is specified to do once the inner responder is back:
    close the body when the response and its body are non-nil. *)
Definition close_if_present {V : Type} (resp : option ptr) (w : World V) : World V :=
  match resp with
  | Some p =>
      match Body (responses w p) with
      | Some b => close_body b w
      | None => w
      end
  | None => w
  end.

(** The body of a response, when neither the response nor its body is
    nil. *)
Definition body_to_close {V : Type} (resp : option ptr) (w : World V)
  : option body_ref :=
  match resp with
  | Some p => Body (responses w p)
  | None => None
  end.

(** An outcome is a panic. *)
Definition panics {V A : Type} (o : Outcome V A) : bool :=
  match o with
  | Returned _ _ => false
  | Panicked _ => true
  end.

(** An outcome is the return of a non-nil error. *)
Definition returns_error {V : Type} (o : Outcome V error) : Prop :=
  exists e w, o = Returned (Some e) w.

(** How often the body [b] was closed, read off an outcome. *)
Definition closes_of {V A : Type} (b : body_ref) (o : Outcome V A) : nat :=
  match o with
  | Returned _ w => closes (bodies w b)
  | Panicked w => closes (bodies w b)
  end.

(** ** Stand-ins for the two library functions, for the examples *)

Module Sample.

(** A target struct with the one field [a]. *)
Record target : Type := mk_target { field_a : Z }.

Definition is_digit (c : ascii) : bool :=
  Nat.leb 48 (nat_of_ascii c) && Nat.leb (nat_of_ascii c) 57.

(** The run of decimal digits [s] starts with, as a number, and what follows
    it. *)
Fixpoint number (s : string) (acc : Z) (seen : bool) : option Z * string :=
  match s with
  | String c s' =>
      if is_digit c
      then number s' (10 * acc + Z.of_nat (nat_of_ascii c - 48))%Z true
      else (if seen then Some acc else None, s)
  | EmptyString => (if seen then Some acc else None, s)
  end.

(** [s] without the prefix [pre]; the input may end early ([inr true]) or
    differ ([inr false]). *)
Fixpoint expect (pre s : string) : string + bool :=
  match pre, s with
  | EmptyString, _ => inl s
  | String _ _, EmptyString => inr true
  | String c pre', String c' s' =>
      if Ascii.eqb c c' then expect pre' s' else inr false
  end.

Definition EOF_text : string := "unexpected EOF".
Definition invalid_text : string := "invalid character".

(** A decoder for documents of the one shape [{ a : N }], the key between
    quote characters and [N] in decimal digits.  A short body arrives in one
    read, so the decoder has pulled all of it whatever the result. *)
Definition json_Decode (input : string) (v : target) : DecodeResult target :=
  let all := String.length input in
  let failed (early : bool) :=
    mk_Decode all v (Some (if early then EOF_text else invalid_text)) in
  match expect ("{" ++ dquote ++ "a" ++ dquote ++ ":") input with
  | inl rest =>
      match number rest 0%Z false with
      | (Some n, rest') =>
          match expect "}" rest' with
          | inl _ => mk_Decode all (mk_target n) None
          | inr early => failed early
          end
      | (None, EmptyString) => failed true
      | (None, _) => failed false
      end
  | inr early => failed early
  end.

Definition upper (c : ascii) : ascii :=
  let n := nat_of_ascii c in
  if Nat.leb 97 n && Nat.leb n 122 then ascii_of_nat (n - 32) else c.

Definition lower (c : ascii) : ascii :=
  let n := nat_of_ascii c in
  if Nat.leb 65 n && Nat.leb n 90 then ascii_of_nat (n + 32) else c.

(** Canonical form of a header name made of letters, digits and dashes: an
    upper-case letter first and after each dash, lower-case letters
    elsewhere. *)
Fixpoint canonical (up : bool) (s : string) : string :=
  match s with
  | String c s' =>
      let c' := if up then upper c else lower c in
      String c' (canonical (Ascii.eqb c' "-") s')
  | EmptyString => EmptyString
  end.

Definition CanonicalHeaderKey (s : string) : string := canonical true s.

(** [s] with its upper-case letters turned to lower case. *)
Fixpoint lower_case (s : string) : string :=
  match s with
  | String c s' => String (lower c) (lower_case s')
  | EmptyString => EmptyString
  end.

(** The body [{ a : 1 }] and the truncated body of the spec's example. *)
Definition good_body : string := "{" ++ dquote ++ "a" ++ dquote ++ ":1}".
Definition bad_body : string := "{" ++ dquote ++ "a" ++ dquote ++ ":".

Definition request : http_Request := mk_Request "GET" (Some "http://host/path").

Definition headers : http_Header :=
  <["X-Test" := ["v1"; "v2"]]> ∅.

(** A response with the given status, body 0, the headers above and maybe a
    request. *)
Definition response (code : Z) (status : string) (rq : option http_Request)
  : http_Response :=
  mk_Response status code (Some headers) (Some 0) rq.

(** A store with one response behind every pointer, whose body holds
    [content] and was never closed; the target's field is zero. *)
Definition world (rs : http_Response) (content : string) : World target :=
  mk_World (fun _ => rs) (fun _ => mk_Body content 0) (fun _ => mk_target 0%Z).

Definition not_found : http_Response := response 404%Z "404 Not Found" (Some request).
Definition not_found_no_request : http_Response := response 404%Z "404 Not Found" None.
Definition server_error : http_Response := response 500%Z "500 Internal Server Error" (Some request).
Definition created : http_Response := response 201%Z "201 Created" (Some request).

(** An inner responder that fails. *)
Definition failing : Responder target :=
  fun _ w => Returned (Some (errorString "inner failure")) w.

(** A decorator whose responder panics on every response. *)
Definition panicking : RespondDecorator target :=
  fun _ _ w => Panicked w.

End Sample.

(** ** Chains of the standard decorators *)

(** The decorators responder.go offers, by name. *)
Inductive Standard : Type :=
  | Ignoring
  | Closing
  | ClosingIfError
  | UnmarshallingJSON (v : target_ref)
  | ErrorUnlessStatusCode (codes : list Z)
  | ErrorUnlessOK.

Definition decorator_of {V : Type} (json_Decode : string -> V -> DecodeResult V)
    (t : Standard) : RespondDecorator V :=
  match t with
  | Ignoring => ByIgnoring
  | Closing => ByClosing
  | ClosingIfError => ByClosingIfError
  | UnmarshallingJSON v => ByUnmarshallingJSON json_Decode v
  | ErrorUnlessStatusCode codes => WithErrorUnlessStatusCode codes
  | ErrorUnlessOK => WithErrorUnlessOK
  end.

Definition chain_of {V : Type} (json_Decode : string -> V -> DecodeResult V)
    (names : list Standard) : list (RespondDecorator V) :=
  map (decorator_of json_Decode) names.

(** The decorators that may call [Close], the one that always does when there
    is a body, and those that read fields of the response without a nil
    check. *)
Definition may_close (t : Standard) : bool :=
  match t with
  | Closing | ClosingIfError => true
  | _ => false
  end.

Definition always_closes (t : Standard) : bool :=
  match t with
  | Closing => true
  | _ => false
  end.

(** The decorators that close after an inner result [err]. *)
Definition closes_after (err : error) (t : Standard) : bool :=
  match err with
  | Some _ => may_close t
  | None => always_closes t
  end.

Definition dereferences (t : Standard) : bool :=
  match t with
  | UnmarshallingJSON _ | ErrorUnlessStatusCode _ | ErrorUnlessOK => true
  | _ => false
  end.

Definition decodes_into (v : target_ref) (t : Standard) : bool :=
  match t with
  | UnmarshallingJSON v' => bool_decide (v' = v)
  | _ => false
  end.

(** How many members of a list pass a test. *)
Definition count_of {A : Type} (test : A -> bool) (l : list A) : nat :=
  length (filter (fun x => test x = true) l).

(** The store an outcome holds. *)
Definition store_of {V A : Type} (o : Outcome V A) : World V :=
  match o with
  | Returned _ w => w
  | Panicked w => w
  end.

(** What the status check makes of an inner result [err] in the store
    [w]. *)
Definition checked {V : Type} (codes : list Z) (resp : option ptr) (err : error)
    (w : World V) : Outcome V error :=
  match err, resp with
  | Some _, _ => Returned err w
  | None, None => Panicked w
  | None, Some p =>
      let rs := responses w p in
      if bool_decide (StatusCode rs ∈ codes) then Returned None w
      else match Request rs with
           | Some rq =>
               Returned
                 (Some (baseError "autorest" "WithErrorUnlessStatusCode"
                          (StatusCode rs)
                          (status_message (Method rq) (URL rq) (Status rs))))
                 w
           | None => Panicked w
           end
  end.

(** What decoding makes of an inner result [err] in the store [w]. *)
Definition unmarshalled {V : Type} (json_Decode : string -> V -> DecodeResult V)
    (v : target_ref) (resp : option ptr) (err : error) (w : World V)
  : Outcome V error :=
  match err, body_to_close resp w with
  | Some _, _ => Returned err w
  | None, None => Panicked w
  | None, Some b =>
      let content := unread (bodies w b) in
      let d := json_Decode content (targets w v) in
      Returned
        (match decode_err d with
         | Some e => Some (decoding_error e (string_take (pulled d) content))
         | None => None
         end)
        (after_Decode b v d w)
  end.

(** What a standard decorator adds once its inner responder is back with the
    outcome [o]. *)
Definition post_action {V : Type} (json_Decode : string -> V -> DecodeResult V)
    (resp : option ptr) (o : Outcome V error) (t : Standard) : Outcome V error :=
  match o with
  | Panicked w => Panicked w
  | Returned err w =>
      match t with
      | Ignoring => Returned err w
      | Closing => Returned err (close_if_present resp w)
      | ClosingIfError =>
          Returned err (match err with
                        | Some _ => close_if_present resp w
                        | None => w
                        end)
      | UnmarshallingJSON v => unmarshalled json_Decode v resp err w
      | ErrorUnlessStatusCode codes => checked codes resp err w
      | ErrorUnlessOK => checked [200%Z] resp err w
      end
  end.

(** * Strings *)

Lemma append_String c (s t : string) : String c s ++ t = String c (s ++ t).
Proof. reflexivity. Qed.

Lemma append_assoc (s t u : string) : (s ++ t) ++ u = s ++ (t ++ u).
Proof.
  induction s as [|c s IH]; [reflexivity|].
  rewrite !append_String, IH. reflexivity.
Qed.

Lemma append_empty (s : string) : s ++ "" = s.
Proof.
  induction s as [|c s IH]; [reflexivity|].
  rewrite append_String, IH. reflexivity.
Qed.

Lemma occurs_in_middle (before s after : string) :
  occurs_in s (before ++ s ++ after).
Proof. exists before, after. reflexivity. Qed.

Lemma occurs_in_start (s after : string) : occurs_in s (s ++ after).
Proof. exists "", after. reflexivity. Qed.

Lemma occurs_in_end (before s : string) : occurs_in s (before ++ s).
Proof. exists before, "". rewrite append_empty. reflexivity. Qed.

Lemma take_drop (n : nat) (s : string) : string_take n s ++ string_drop n s = s.
Proof.
  revert s. induction n as [|n IH]; intros [|c s]; try reflexivity.
  simpl. rewrite append_String, IH. reflexivity.
Qed.

(** * The mechanism *)

Section Mechanism.

Context {V : Type}.
Implicit Types (r : Responder V) (d : RespondDecorator V)
               (decorators : list (RespondDecorator V)).

Lemma DecorateResponder_app r decorators more :
  DecorateResponder r (decorators ++ more)
  = DecorateResponder (DecorateResponder r decorators) more.
Proof.
  revert r. induction decorators as [|d rest IH]; intros r; simpl.
  - reflexivity.
  - apply IH.
Qed.

Lemma DecorateResponder_iterate r decorators :
  DecorateResponder r decorators = iterate_in_order r decorators.
Proof.
  revert r. induction decorators as [|d rest IH]; intros r; [reflexivity|].
  simpl. rewrite IH. reflexivity.
Qed.

Lemma DecorateResponder_last r decorators d :
  DecorateResponder r (decorators ++ [d]) = d (DecorateResponder r decorators).
Proof. rewrite DecorateResponder_app. reflexivity. Qed.

Lemma DecorateResponder_nested r decorators :
  DecorateResponder r decorators = wrap_from_outermost r (rev decorators).
Proof.
  induction decorators as [|d rest IH] using rev_ind; [reflexivity|].
  rewrite DecorateResponder_last, rev_unit. simpl. rewrite IH. reflexivity.
Qed.

End Mechanism.

(** C1. [DecorateResponder r [d1; ...; dn]] is the responder reached by going
    through the decorators in the given order and replacing the accumulated
    responder by [di] of it; hence a decorator appended to the list wraps
    all the others, the whole being [dn (... (d2 (d1 r)))]; and
    [CreateResponder] is [DecorateResponder] from a base that returns
    success for every response. *)
Theorem DecorateResponder_order {V : Type} (r : Responder V)
    (decorators : list (RespondDecorator V)) :
  DecorateResponder r decorators = iterate_in_order r decorators
  /\ DecorateResponder r decorators = wrap_from_outermost r (rev decorators)
  /\ (forall d, DecorateResponder r (decorators ++ [d])
                = d (DecorateResponder r decorators))
  /\ exists base : Responder V,
       CreateResponder decorators = DecorateResponder base decorators
       /\ forall resp w, Responder_Respond base resp w = Returned None w.
Proof.
  split; [apply DecorateResponder_iterate|].
  split; [apply DecorateResponder_nested|].
  split; [intros d; apply DecorateResponder_last|].
  exists (ResponderFunc (fun _ => mret None)). split; reflexivity.
Qed.

(** C3. On the nil response [Respond] returns nil whatever the decorators
    are, and the store is the one it was called in: nothing was closed, read
    or decoded, and no decorator had the occasion to panic. *)
Theorem Respond_nil {V : Type} (decorators : list (RespondDecorator V))
    (w : World V) :
  Respond None decorators w = Returned None w.
Proof. reflexivity. Qed.

Example Respond_nil_panicking_chain :
  Respond None [Sample.panicking; ByClosing; WithErrorUnlessOK]
    (Sample.world Sample.not_found "")
  = Returned None (Sample.world Sample.not_found "").
Proof. reflexivity. Qed.

Example Respond_non_nil_panicking_chain :
  Respond (Some 0) [Sample.panicking] (Sample.world Sample.not_found "")
  = Panicked (Sample.world Sample.not_found "").
Proof. reflexivity. Qed.

(** * The two closing decorators *)

(** Unfolds a decorator down to the matches on outcomes. *)
Ltac run_go :=
  unfold ResponderFunc, Responder_Respond, mbind, Go_bind, mret, Go_ret in *;
  simpl in *.

Section Closing.

Context {V : Type}.
Implicit Types (r : Responder V) (w : World V) (resp : option ptr).

Lemma close_body_closes b w b' :
  closes (bodies (close_body b w) b')
  = (closes (bodies w b') + if bool_decide (b' = b) then 1 else 0)%nat.
Proof.
  unfold close_body; simpl.
  case_decide; case_bool_decide; simpl; try congruence; subst; lia.
Qed.

Lemma close_body_unread b w b' :
  unread (bodies (close_body b w) b') = unread (bodies w b').
Proof. unfold close_body; simpl. case_decide; subst; reflexivity. Qed.

Lemma close_if_present_closes resp w b :
  closes (bodies (close_if_present resp w) b)
  = (closes (bodies w b)
     + if bool_decide (body_to_close resp w = Some b) then 1 else 0)%nat.
Proof.
  unfold close_if_present, body_to_close.
  destruct resp as [p|]; [destruct (Body (responses w p)) as [b0|]|].
  - rewrite close_body_closes.
    repeat case_bool_decide; try congruence; reflexivity.
  - case_bool_decide; [congruence|lia].
  - case_bool_decide; [congruence|lia].
Qed.

Lemma close_if_present_rest resp w :
  responses (close_if_present resp w) = responses w
  /\ targets (close_if_present resp w) = targets w
  /\ forall b, unread (bodies (close_if_present resp w) b) = unread (bodies w b).
Proof.
  unfold close_if_present.
  destruct resp as [p|]; [destruct (Body (responses w p)) as [b0|]|];
    repeat split; auto using close_body_unread.
Qed.

Lemma ByClosing_run r resp w :
  ByClosing r resp w
  = match Responder_Respond r resp w with
    | Returned err w' => Returned err (close_if_present resp w')
    | Panicked w' => Panicked w'
    end.
Proof.
  unfold ByClosing, close_if_present. run_go.
  destruct (r resp w) as [err w'|w']; [|reflexivity].
  destruct resp as [p|]; [|reflexivity]. simpl.
  destruct (Body (responses w' p)); reflexivity.
Qed.

Lemma ByClosingIfError_run r resp w :
  ByClosingIfError r resp w
  = match Responder_Respond r resp w with
    | Returned (Some e) w' => Returned (Some e) (close_if_present resp w')
    | Returned None w' => Returned None w'
    | Panicked w' => Panicked w'
    end.
Proof.
  unfold ByClosingIfError, close_if_present. run_go.
  destruct (r resp w) as [[e|] w'|w']; try reflexivity.
  destruct resp as [p|]; [|reflexivity]. simpl.
  destruct (Body (responses w' p)); reflexivity.
Qed.

End Closing.

(** C6. The responder of [ByClosing] calls the inner responder first.  When
    that returns, with an error or without, the result is returned as it is,
    and the store differs from the one the inner responder left only in
    this: the body of the response, if neither the response nor its body is
    nil, has been closed once more. *)
Theorem ByClosing_closes_and_returns_inner {V : Type} (r : Responder V)
    (resp : option ptr) (w : World V) :
  match Responder_Respond r resp w with
  | Returned err w' =>
      exists w'', ByClosing r resp w = Returned err w''
        /\ (forall b, closes (bodies w'' b)
              = (closes (bodies w' b)
                 + if bool_decide (body_to_close resp w' = Some b)
                   then 1 else 0)%nat)
        /\ (forall b, unread (bodies w'' b) = unread (bodies w' b))
        /\ responses w'' = responses w'
        /\ targets w'' = targets w'
  | Panicked w' => ByClosing r resp w = Panicked w'
  end.
Proof.
  rewrite ByClosing_run.
  destruct (Responder_Respond r resp w) as [err w'|w']; [|reflexivity].
  exists (close_if_present resp w'). split; [reflexivity|].
  split; [apply close_if_present_closes|].
  destruct (close_if_present_rest resp w') as (Hr & Ht & Hu). auto.
Qed.

Lemma ByClosing_closes_and_returns_inner_witness :
  exists w'',
    ByClosing Sample.failing (Some 0) (Sample.world Sample.not_found "")
    = Returned (Some (errorString "inner failure")) w''
    /\ closes (bodies w'' 0) = 1
    /\ closes (bodies w'' 1) = 0.
Proof.
  destruct (ByClosing_closes_and_returns_inner Sample.failing (Some 0)
              (Sample.world Sample.not_found "")) as (w'' & Hrun & Hcloses & _).
  exists w''. split; [exact Hrun|].
  split; [exact (Hcloses 0)|exact (Hcloses 1)].
Defined.

Example ByClosing_keeps_inner_error :
  let w := Sample.world Sample.not_found "" in
  ByClosing Sample.failing (Some 0) w
  = Returned (Some (errorString "inner failure")) (close_body 0 w)
  /\ closes_of 0 (ByClosing Sample.failing (Some 0) w) = 1.
Proof. split; reflexivity. Qed.

(** C7. The responder of [ByClosingIfError] calls the inner responder and
    returns its result as it is.  The body is closed, once, exactly when the
    inner responder returned an error and neither the response nor its body
    is nil; after a success nothing in the store is touched. *)
Theorem ByClosingIfError_closes_only_on_error {V : Type} (r : Responder V)
    (resp : option ptr) (w : World V) :
  match Responder_Respond r resp w with
  | Returned err w' =>
      exists w'', ByClosingIfError r resp w = Returned err w''
        /\ (forall b, closes (bodies w'' b)
              = (closes (bodies w' b)
                 + if bool_decide (is_Some err /\ body_to_close resp w' = Some b)
                   then 1 else 0)%nat)
        /\ (forall b, unread (bodies w'' b) = unread (bodies w' b))
        /\ responses w'' = responses w'
        /\ targets w'' = targets w'
        /\ (err = None -> w'' = w')
  | Panicked w' => ByClosingIfError r resp w = Panicked w'
  end.
Proof.
  rewrite ByClosingIfError_run.
  destruct (Responder_Respond r resp w) as [[e|] w'|w']; [| |reflexivity].
  - exists (close_if_present resp w'). split; [reflexivity|].
    destruct (close_if_present_rest resp w') as (Hr & Ht & Hu).
    repeat split; auto; [|discriminate].
    intros b. rewrite close_if_present_closes.
    repeat case_bool_decide; try reflexivity.
    + exfalso. apply H0. split; [eexists; reflexivity|assumption].
    + exfalso. apply H. tauto.
  - exists w'. split; [reflexivity|]. repeat split; try reflexivity.
    intros b. case_bool_decide as H; [|lia].
    destruct H as [[x Hx] _]. discriminate.
Qed.

Lemma ByClosingIfError_closes_only_on_error_witness :
  (exists w'',
     ByClosingIfError Sample.failing (Some 0) (Sample.world Sample.not_found "")
     = Returned (Some (errorString "inner failure")) w''
     /\ closes (bodies w'' 0) = 1)
  /\ (exists w'',
        ByClosingIfError always_succeeds (Some 0) (Sample.world Sample.not_found "")
        = Returned None w''
        /\ closes (bodies w'' 0) = 0).
Proof.
  destruct (ByClosingIfError_closes_only_on_error Sample.failing (Some 0)
              (Sample.world Sample.not_found "")) as (w1 & Hrun1 & Hcloses1 & _).
  destruct (ByClosingIfError_closes_only_on_error always_succeeds (Some 0)
              (Sample.world Sample.not_found "")) as (w2 & Hrun2 & Hcloses2 & _).
  split.
  - exists w1. split; [exact Hrun1|exact (Hcloses1 0)].
  - exists w2. split; [exact Hrun2|exact (Hcloses2 0)].
Defined.

Example ByClosingIfError_on_failure_and_success :
  let w := Sample.world Sample.not_found "" in
  closes_of 0 (ByClosingIfError Sample.failing (Some 0) w) = 1
  /\ ByClosingIfError always_succeeds (Some 0) w = Returned None w
  /\ closes_of 0 (ByClosingIfError always_succeeds (Some 0) w) = 0.
Proof. repeat split; reflexivity. Qed.

(** * The status decorators *)

(** C9. [WithErrorUnlessOK] is [WithErrorUnlessStatusCode] at the one code
    200: around every inner responder, on every response and in every store
    the two have the same outcome. *)
Theorem WithErrorUnlessOK_is_WithErrorUnlessStatusCode_200 {V : Type}
    (r : Responder V) (resp : option ptr) (w : World V) :
  Responder_Respond (WithErrorUnlessOK r) resp w
  = Responder_Respond (WithErrorUnlessStatusCode [200%Z] r) resp w.
Proof. reflexivity. Qed.

Section Status.

Context {V : Type}.
Implicit Types (r : Responder V) (w : World V) (resp : option ptr)
               (codes : list Z).

Lemma WithErrorUnlessStatusCode_run codes r resp w :
  WithErrorUnlessStatusCode codes r resp w
  = match Responder_Respond r resp w with
    | Returned (Some e) w' => Returned (Some e) w'
    | Returned None w' =>
        match resp with
        | None => Panicked w'
        | Some p =>
            let rs := responses w' p in
            if bool_decide (StatusCode rs ∈ codes) then Returned None w'
            else match Request rs with
                 | Some rq =>
                     Returned
                       (Some (baseError "autorest" "WithErrorUnlessStatusCode"
                                (StatusCode rs)
                                (status_message (Method rq) (URL rq) (Status rs))))
                       w'
                 | None => Panicked w'
                 end
        end
    | Panicked w' => Panicked w'
    end.
Proof.
  unfold WithErrorUnlessStatusCode, ResponseHasStatusCode. run_go.
  destruct (r resp w) as [[e|] w'|w']; try reflexivity.
  destruct resp as [p|]; [|reflexivity]. simpl.
  destruct (bool_decide _); simpl; [reflexivity|].
  destruct (Request (responses w' p)); reflexivity.
Qed.

Lemma status_message_carries method url status :
  occurs_in method (status_message method url status)
  /\ occurs_in (default "<nil>" url) (status_message method url status)
  /\ occurs_in status (status_message method url status).
Proof.
  unfold status_message. repeat split.
  - apply occurs_in_start.
  - rewrite <- (append_assoc method " "). apply occurs_in_middle.
  - rewrite <- !append_assoc. apply occurs_in_end.
Qed.

End Status.

(** C4, as the code has it.  Let the inner responder return on a non-nil
    response.  An inner error is returned as it is.  After an inner success
    the status code decides: with a code among [codes] the result is
    success; with any other code, and a response that has its request, the
    result is the synthesized error, which holds the status code and a
    message in which the request method, the request URL and the status
    line occur.  So, as long as the response has its request whenever its
    code is not among [codes], an error is returned exactly when the inner
    call failed, or succeeded on a code outside [codes].  The store is the
    one the inner responder left. *)
Theorem WithErrorUnlessStatusCode_errors {V : Type} (codes : list Z)
    (r : Responder V) (p : ptr) (w : World V) (err : error) (w' : World V) :
  Responder_Respond r (Some p) w = Returned err w' ->
  let rs := responses w' p in
  let result := Responder_Respond (WithErrorUnlessStatusCode codes r) (Some p) w in
  (forall e, err = Some e -> result = Returned (Some e) w')
  /\ (err = None -> StatusCode rs ∈ codes -> result = Returned None w')
  /\ (forall rq, err = None -> StatusCode rs ∉ codes -> Request rs = Some rq ->
        exists msg,
          result = Returned (Some (baseError "autorest" "WithErrorUnlessStatusCode"
                                     (StatusCode rs) msg)) w'
          /\ occurs_in (Method rq) msg
          /\ occurs_in (default "<nil>" (URL rq)) msg
          /\ occurs_in (Status rs) msg)
  /\ ((StatusCode rs ∉ codes -> is_Some (Request rs)) ->
        (returns_error result
         <-> is_Some err \/ (err = None /\ StatusCode rs ∉ codes))).
Proof.
  intros Hinner rs result. subst result.
  unfold Responder_Respond in *. rewrite WithErrorUnlessStatusCode_run.
  unfold Responder_Respond. rewrite Hinner. fold rs.
  split; [intros e ->; reflexivity|].
  split; [intros -> Hin; simpl; rewrite bool_decide_eq_true_2; auto|].
  split.
  - intros rq -> Hout Hrq. simpl. rewrite bool_decide_eq_false_2 by assumption.
    rewrite Hrq. eexists. split; [reflexivity|].
    apply status_message_carries.
  - intros Hreq. destruct err as [e|]; simpl.
    + split; [intros _; left; eexists; reflexivity|].
      intros _. exists e, w'. reflexivity.
    + case_bool_decide as Hin.
      * split; [intros (e & w0 & [=])|].
        intros [[e [=]]|[_ Hout]]. contradiction.
      * destruct (Hreq Hin) as [rq Hrq]. rewrite Hrq.
        split; [intros _; right; auto|].
        intros _. eexists _, w'. reflexivity.
Qed.

Lemma WithErrorUnlessStatusCode_errors_witness :
  let w := Sample.world Sample.server_error "" in
  Responder_Respond (WithErrorUnlessStatusCode [200%Z; 201%Z] always_succeeds)
    (Some 0) (Sample.world Sample.created "")
  = Returned None (Sample.world Sample.created "")
  /\ exists msg,
       Responder_Respond (WithErrorUnlessStatusCode [200%Z; 201%Z] always_succeeds)
         (Some 0) w
       = Returned (Some (baseError "autorest" "WithErrorUnlessStatusCode" 500%Z msg)) w
       /\ occurs_in "GET" msg
       /\ occurs_in "http://host/path" msg
       /\ occurs_in "500 Internal Server Error" msg.
Proof.
  assert (Hcreated := WithErrorUnlessStatusCode_errors [200%Z; 201%Z]
            always_succeeds 0 (Sample.world Sample.created "") None _ eq_refl).
  assert (Hserver := WithErrorUnlessStatusCode_errors [200%Z; 201%Z]
            always_succeeds 0 (Sample.world Sample.server_error "") None _ eq_refl).
  cbv zeta in Hcreated, Hserver.
  destruct Hcreated as (_ & Hok & _). destruct Hserver as (_ & _ & Hbad & _).
  split.
  - apply Hok; [reflexivity|]. compute_done.
  - apply (Hbad Sample.request); [reflexivity| |reflexivity].
    compute_done.
Defined.

(** C4 as stated fails on a response without its request: the inner call
    succeeded and 500 is not among the codes, yet no error comes back; the
    call panics on [resp.Request.Method]. *)
Lemma WithErrorUnlessStatusCode_panics_without_request :
  let w := Sample.world (Sample.response 500%Z "500 Internal Server Error" None) "" in
  Responder_Respond always_succeeds (Some 0) w = Returned None w
  /\ bool_decide (500%Z ∈ [200%Z; 201%Z]) = false
  /\ Responder_Respond (WithErrorUnlessStatusCode [200%Z; 201%Z] always_succeeds)
       (Some 0) w
     = Panicked w.
Proof. repeat split; reflexivity. Qed.

(** * Decoding JSON *)

Section Unmarshalling.

Context {V : Type} (json_Decode : string -> V -> DecodeResult V).
Implicit Types (r : Responder V) (w : World V) (resp : option ptr)
               (v : target_ref) (b : body_ref).

Lemma ByUnmarshallingJSON_run v r resp w :
  ByUnmarshallingJSON json_Decode v r resp w
  = match Responder_Respond r resp w with
    | Returned (Some e) w' => Returned (Some e) w'
    | Returned None w' =>
        match body_to_close resp w' with
        | Some b =>
            let content := unread (bodies w' b) in
            let d := json_Decode content (targets w' v) in
            Returned
              (match decode_err d with
               | Some e => Some (decoding_error e (string_take (pulled d) content))
               | None => None
               end)
              (after_Decode b v d w')
        | None => Panicked w'
        end
    | Panicked w' => Panicked w'
    end.
Proof.
  unfold ByUnmarshallingJSON, body_to_close, Decode_through_tee. run_go.
  destruct (r resp w) as [[e|] w'|w']; try reflexivity.
  destruct resp as [p|]; [|reflexivity]. simpl.
  destruct (Body (responses w' p)) as [b|]; [|reflexivity]. simpl.
  destruct (decode_err _); reflexivity.
Qed.

Lemma decoding_error_carries (e read : string) :
  exists msg, decoding_error e read = errorString msg
              /\ occurs_in e msg /\ occurs_in read msg.
Proof.
  unfold decoding_error. eexists. split; [reflexivity|]. split.
  - apply occurs_in_middle.
  - rewrite <- (append_assoc e), <- (append_assoc (e ++ _)), <- (append_assoc "Error (").
    apply occurs_in_middle.
Qed.

Lemma after_Decode_store b v (d : DecodeResult V) w :
  targets (after_Decode b v d w) v = decoded d
  /\ (forall v', v' <> v -> targets (after_Decode b v d w) v' = targets w v')
  /\ unread (bodies (after_Decode b v d w) b)
     = string_drop (pulled d) (unread (bodies w b))
  /\ (forall b', closes (bodies (after_Decode b v d w) b') = closes (bodies w b'))
  /\ responses (after_Decode b v d w) = responses w.
Proof.
  unfold after_Decode; simpl. repeat split.
  - case_decide; congruence.
  - intros v' Hv. case_decide; congruence.
  - case_decide; simpl; congruence.
  - intros b'. case_decide; subst; reflexivity.
Qed.

(** The bytes the tee has copied and those the body still holds make up
    what the body held before. *)
Lemma tee_keeps_every_byte b v (d : DecodeResult V) w :
  string_take (pulled d) (unread (bodies w b))
  ++ unread (bodies (after_Decode b v d w) b)
  = unread (bodies w b).
Proof.
  destruct (after_Decode_store b v d w) as (_ & _ & -> & _). apply take_drop.
Qed.

End Unmarshalling.

Lemma take_all (n : nat) (s : string) :
  (String.length s <= n)%nat -> string_take n s = s.
Proof.
  revert n. induction s as [|c s IH]; intros [|n] Hn; simpl in *;
    try reflexivity; try lia.
  rewrite IH by lia. reflexivity.
Qed.

(** C5. Around every inner responder and on every non-nil response: after
    an inner error the responder of [ByUnmarshallingJSON] returns that
    error and nothing is read or decoded.  After an inner success, with a
    body to read, the decoder runs on what the body still holds and the
    target holds what the decoder left in it; on success of the decoder the
    result is success, on failure it is a new error whose message holds the
    decoder's error and the bytes read from the body so far, which is the
    whole payload once the decoder has pulled all of it. *)
Theorem ByUnmarshallingJSON_decodes_after_success {V : Type}
    (json_Decode : string -> V -> DecodeResult V) (v : target_ref)
    (r : Responder V) (p : ptr) (w : World V) :
  let result := Responder_Respond (ByUnmarshallingJSON json_Decode v r) (Some p) w in
  match Responder_Respond r (Some p) w with
  | Returned (Some e) w' => result = Returned (Some e) w'
  | Returned None w' =>
      forall b, Body (responses w' p) = Some b ->
        let content := unread (bodies w' b) in
        let d := json_Decode content (targets w' v) in
        let read := string_take (pulled d) content in
        exists w'',
          match decode_err d with
          | None => result = Returned None w''
          | Some e =>
              exists msg, result = Returned (Some (errorString msg)) w''
                          /\ occurs_in e msg /\ occurs_in read msg
          end
          /\ targets w'' v = decoded d
          /\ unread (bodies w'' b) = string_drop (pulled d) content
          /\ ((String.length content <= pulled d)%nat -> read = content)
  | Panicked w' => result = Panicked w'
  end.
Proof.
  intros result. subst result. unfold Responder_Respond.
  rewrite ByUnmarshallingJSON_run. unfold Responder_Respond.
  destruct (r (Some p) w) as [[e|] w'|w']; try reflexivity.
  intros b Hb. simpl. rewrite Hb.
  set (content := unread (bodies w' b)).
  set (d := json_Decode content (targets w' v)).
  exists (after_Decode b v d w').
  destruct (after_Decode_store b v d w') as (Ht & _ & Hu & _).
  repeat split; auto using take_all.
  destruct (decode_err d) as [e|]; [|reflexivity].
  destruct (decoding_error_carries e (string_take (pulled d) content))
    as (msg & -> & He & Hread).
  exists msg. auto.
Qed.

Lemma ByUnmarshallingJSON_decodes_after_success_witness :
  (exists w'',
     Responder_Respond (ByUnmarshallingJSON Sample.json_Decode 0 always_succeeds)
       (Some 0) (Sample.world Sample.created Sample.good_body)
     = Returned None w''
     /\ targets w'' 0 = Sample.mk_target 1)
  /\ (exists msg w'',
        Responder_Respond (ByUnmarshallingJSON Sample.json_Decode 0 always_succeeds)
          (Some 0) (Sample.world Sample.created Sample.bad_body)
        = Returned (Some (errorString msg)) w''
        /\ occurs_in "unexpected EOF" msg
        /\ occurs_in Sample.bad_body msg).
Proof.
  assert (Hgood := ByUnmarshallingJSON_decodes_after_success Sample.json_Decode 0
            always_succeeds 0 (Sample.world Sample.created Sample.good_body)
            0 eq_refl).
  assert (Hbad := ByUnmarshallingJSON_decodes_after_success Sample.json_Decode 0
            always_succeeds 0 (Sample.world Sample.created Sample.bad_body)
            0 eq_refl).
  destruct Hgood as (w1 & Hres1 & Ht1 & _).
  destruct Hbad as (w2 & (msg & Hres2 & He & Hread) & _ & _ & Hall).
  split.
  - exists w1. split; [exact Hres1|exact Ht1].
  - exists msg, w2. split; [exact Hres2|]. split; [exact He|].
    exact (eq_ind _ (fun s => occurs_in s msg) Hread _ (Hall (le_n 5))).
Defined.

Example ByUnmarshallingJSON_malformed_message :
  exists w,
    ByUnmarshallingJSON Sample.json_Decode 0 always_succeeds (Some 0)
      (Sample.world Sample.created Sample.bad_body)
    = Returned
        (Some (errorString ("Error (unexpected EOF) occurred decoding JSON ("
                            ++ dquote ++ Sample.bad_body ++ dquote ++ ")")))
        w.
Proof. eexists. reflexivity. Qed.

Example ByUnmarshallingJSON_skipped_after_inner_error :
  let w := Sample.world Sample.created Sample.good_body in
  ByUnmarshallingJSON Sample.json_Decode 0 Sample.failing (Some 0) w
  = Returned (Some (errorString "inner failure")) w.
Proof. reflexivity. Qed.

(** * Nil responses, bodies and requests *)

(** C10. Let the inner responder return.  The responders of [ByClosing] and
    [ByClosingIfError] then return too, whatever the response is.  The
    responder of [ByUnmarshallingJSON] returns exactly when, after an inner
    success, the response is non-nil and has a body; the responder of
    [WithErrorUnlessStatusCode] returns exactly when, after an inner
    success, the response is non-nil and, if its code is not among [codes],
    has its request.  Otherwise they panic on a nil dereference. *)
Theorem nil_dereference_preconditions {V : Type}
    (json_Decode : string -> V -> DecodeResult V) (v : target_ref)
    (codes : list Z) (r : Responder V) (resp : option ptr) (w : World V)
    (err : error) (w' : World V) :
  Responder_Respond r resp w = Returned err w' ->
  panics (Responder_Respond (ByClosing r) resp w) = false
  /\ panics (Responder_Respond (ByClosingIfError r) resp w) = false
  /\ (panics (Responder_Respond (ByUnmarshallingJSON json_Decode v r) resp w) = false
      <-> (err = None ->
           exists p b, resp = Some p /\ Body (responses w' p) = Some b))
  /\ (panics (Responder_Respond (WithErrorUnlessStatusCode codes r) resp w) = false
      <-> (err = None ->
           exists p, resp = Some p
                     /\ (StatusCode (responses w' p) ∉ codes ->
                         is_Some (Request (responses w' p))))).
Proof.
  intros Hinner. unfold Responder_Respond in *.
  rewrite ByClosing_run, ByClosingIfError_run, ByUnmarshallingJSON_run,
    WithErrorUnlessStatusCode_run.
  unfold Responder_Respond. rewrite Hinner.
  split; [reflexivity|]. split; [destruct err; reflexivity|].
  destruct err as [e|]; simpl.
  { split; split; auto; discriminate. }
  split.
  - destruct resp as [p|]; simpl.
    + destruct (Body (responses w' p)) as [b|] eqn:Hb; simpl.
      * split; eauto.
      * split; [discriminate|]. intros H.
        destruct (H eq_refl) as (p' & b & [= <-] & Hb'). congruence.
    + split; [discriminate|]. intros H.
      destruct (H eq_refl) as (p' & b & [=] & _).
  - destruct resp as [p|]; simpl.
    + case_bool_decide as Hin.
      * split; [|reflexivity]. intros _ _. exists p. split; [reflexivity|].
        intros Hout. contradiction.
      * destruct (Request (responses w' p)) as [rq|] eqn:Hrq.
        -- split; [|reflexivity]. intros _ _. exists p.
           split; [reflexivity|]. rewrite Hrq. eauto.
        -- split; [discriminate|]. intros H.
           destruct (H eq_refl) as (p' & [= <-] & Hreq).
           destruct (Hreq Hin) as [rq Hsome]. congruence.
    + split; [discriminate|]. intros H.
      destruct (H eq_refl) as (p' & [=] & _).
Qed.

Lemma nil_dereference_preconditions_witness :
  let w := Sample.world Sample.not_found Sample.good_body in
  panics (Responder_Respond (ByClosing always_succeeds) None w) = false
  /\ panics (Responder_Respond (ByClosingIfError always_succeeds) None w) = false
  /\ panics (Responder_Respond
               (ByUnmarshallingJSON Sample.json_Decode 0 always_succeeds)
               (Some 0) w) = false
  /\ panics (Responder_Respond (WithErrorUnlessStatusCode [200%Z] always_succeeds)
               (Some 0) w) = false.
Proof.
  intros w.
  destruct (nil_dereference_preconditions Sample.json_Decode 0 [200%Z]
              always_succeeds None w None w eq_refl) as (Hc & Hce & _ & _).
  destruct (nil_dereference_preconditions Sample.json_Decode 0 [200%Z]
              always_succeeds (Some 0) w None w eq_refl) as (_ & _ & Hj & Hs).
  split; [exact Hc|]. split; [exact Hce|]. split.
  - apply Hj. intros _. exists 0, 0. split; reflexivity.
  - apply Hs. intros _. exists 0. split; [reflexivity|].
    intros _. exists Sample.request. reflexivity.
Defined.

Example nil_response_panics_after_inner_success :
  let w := Sample.world Sample.not_found Sample.good_body in
  ByUnmarshallingJSON Sample.json_Decode 0 always_succeeds None w = Panicked w
  /\ WithErrorUnlessStatusCode [200%Z] always_succeeds None w = Panicked w
  /\ ByClosing always_succeeds None w = Returned None w
  /\ ByClosingIfError Sample.failing None w
     = Returned (Some (errorString "inner failure")) w.
Proof. repeat split; reflexivity. Qed.

Example nil_body_panics_after_inner_success :
  let w := Sample.world (mk_Response "200 OK" 200%Z None None None) "" in
  ByUnmarshallingJSON Sample.json_Decode 0 always_succeeds (Some 0) w = Panicked w
  /\ WithErrorUnlessStatusCode [200%Z] always_succeeds (Some 0) w = Returned None w
  /\ WithErrorUnlessStatusCode [201%Z] always_succeeds (Some 0) w = Panicked w
  /\ ByClosing always_succeeds (Some 0) w = Returned None w.
Proof. repeat split; reflexivity. Qed.

(** * The chain of closing and checking *)

(** C2, as the code has it.  In the chain that lists [ByClosing] first and
    [WithErrorUnlessOK] second, the second wraps the first: it is the
    outermost decorator.  On a response with status code 404 that has its
    body and its request, once the base has succeeded the inner responder,
    [ByClosing] around the base, closes the body and returns nil; only then
    does the status check of the outer responder run, and it turns that nil
    into the status error.  The body has been closed once. *)
Theorem close_body_then_require_OK {V : Type} (base : Responder V) (p : ptr)
    (w w' : World V) (b : body_ref) (rq : http_Request) :
  let rs := responses w' p in
  let chain := [ByClosing; WithErrorUnlessOK] in
  let status_error :=
    baseError "autorest" "WithErrorUnlessStatusCode" 404%Z
      (status_message (Method rq) (URL rq) (Status rs)) in
  Responder_Respond base (Some p) w = Returned None w' ->
  StatusCode rs = 404%Z ->
  Body rs = Some b ->
  Request rs = Some rq ->
  DecorateResponder base chain = WithErrorUnlessOK (ByClosing base)
  /\ Responder_Respond (ByClosing base) (Some p) w = Returned None (close_body b w')
  /\ Responder_Respond (DecorateResponder base chain) (Some p) w
     = Returned (Some status_error) (close_body b w')
  /\ closes (bodies (close_body b w') b) = S (closes (bodies w' b))
  /\ Respond (Some p) chain
     = Responder_Respond (DecorateResponder always_succeeds chain) (Some p).
Proof.
  intros rs chain status_error Hbase Hcode Hbody Hrq.
  assert (Hinner : ByClosing base (Some p) w = Returned None (close_body b w')).
  { rewrite ByClosing_run. rewrite Hbase. simpl. fold rs. rewrite Hbody.
    reflexivity. }
  split; [reflexivity|]. split; [exact Hinner|]. split.
  - unfold chain, WithErrorUnlessOK, Responder_Respond; simpl.
    rewrite WithErrorUnlessStatusCode_run. unfold Responder_Respond.
    rewrite Hinner. simpl. fold rs. rewrite Hcode, Hrq. reflexivity.
  - split; [|reflexivity]. rewrite close_body_closes.
    rewrite bool_decide_eq_true_2 by reflexivity. lia.
Qed.

Lemma close_body_then_require_OK_witness :
  let w := Sample.world Sample.not_found "" in
  Respond (Some 0) [ByClosing; WithErrorUnlessOK] w
  = Returned
      (Some (baseError "autorest" "WithErrorUnlessStatusCode" 404%Z
               "GET http://host/path failed with 404 Not Found"))
      (close_body 0 w)
  /\ closes (bodies (close_body 0 w) 0) = 1.
Proof.
  intros w.
  destruct (close_body_then_require_OK always_succeeds 0 w w 0 Sample.request
              eq_refl eq_refl eq_refl eq_refl) as (_ & _ & Hrun & Hcloses & HRespond).
  split; [|exact Hcloses].
  exact (eq_trans (f_equal (fun run => run w) HRespond) Hrun).
Defined.

(** C2 as stated has the status check of [WithErrorUnlessOK] innermost, run
    before the body is closed.  On a 404 response that lacks its request the
    check panics, and the store of that moment tells the order: in the chain
    the body has been closed by then, whereas with the check innermost it
    would not have been. *)
Lemma require_OK_is_not_innermost :
  let w := Sample.world Sample.not_found_no_request "" in
  let chain := [ByClosing; WithErrorUnlessOK] in
  CreateResponder chain = WithErrorUnlessOK (ByClosing always_succeeds)
  /\ Respond (Some 0) chain w = Panicked (close_body 0 w)
  /\ closes_of 0 (Respond (Some 0) chain w) = 1
  /\ Responder_Respond (ByClosing (WithErrorUnlessOK always_succeeds)) (Some 0) w
     = Panicked w
  /\ closes_of 0
       (Responder_Respond (ByClosing (WithErrorUnlessOK always_succeeds)) (Some 0) w)
     = 0.
Proof. repeat split; reflexivity. Qed.

(** * The header accessors *)

(** C8. [ExtractHeader] never fails and leaves the store alone.  Its result
    is empty for the nil response, for the nil header map and for a map
    without the canonical form of the name; otherwise it is the list of
    values the map holds under that canonical form, so two names with one
    canonical form get the same result.  [ExtractHeaderValue] is the first
    of these values, or the empty string when there is none. *)
Theorem ExtractHeader_canonical_lookup {V : Type}
    (CanonicalHeaderKey : string -> string) (header : string)
    (resp : option ptr) (w : World V) :
  exists values : list string,
    ExtractHeader CanonicalHeaderKey header resp w = Returned values w
    /\ ExtractHeaderValue CanonicalHeaderKey header resp w
       = Returned (hd "" values) w
    /\ (resp = None -> values = [])
    /\ (forall p, resp = Some p -> Header (responses w p) = None -> values = [])
    /\ (forall p (h : http_Header),
          resp = Some p -> Header (responses w p) = Some h ->
          (h !! CanonicalHeaderKey header = None -> values = [])
          /\ (forall vs, h !! CanonicalHeaderKey header = Some vs -> values = vs))
    /\ (forall header',
          CanonicalHeaderKey header' = CanonicalHeaderKey header ->
          ExtractHeader CanonicalHeaderKey header' resp w = Returned values w).
Proof.
  unfold ExtractHeaderValue, ExtractHeader. run_go.
  destruct resp as [p|]; simpl.
  - destruct (Header (responses w p)) as [h|] eqn:Hh.
    + exists (default [] (h !! CanonicalHeaderKey header)).
      split; [reflexivity|].
      split; [destruct (default _ _); reflexivity|].
      split; [discriminate|]. split; [intros p' [= <-]; congruence|].
      split.
      * intros p' h' [= <-] Hh'. assert (h' = h) as -> by congruence.
        split; [intros ->; reflexivity|intros vs ->; reflexivity].
      * intros header' ->. reflexivity.
    + exists []. do 4 (split; [reflexivity|]).
      split; [intros p' h' [= <-] Hh'; congruence|].
      intros header' _. reflexivity.
  - exists []. do 3 (split; [reflexivity|]).
    split; [discriminate|]. split; [discriminate|].
    intros header' _. reflexivity.
Qed.

Lemma upper_of_lower (c : ascii) : Sample.upper (Sample.lower c) = Sample.upper c.
Proof. destruct c as [[] [] [] [] [] [] [] []]; reflexivity. Qed.

Lemma lower_of_lower (c : ascii) : Sample.lower (Sample.lower c) = Sample.lower c.
Proof. destruct c as [[] [] [] [] [] [] [] []]; reflexivity. Qed.

Lemma canonical_lower_case (up : bool) (s : string) :
  Sample.canonical up (Sample.lower_case s) = Sample.canonical up s.
Proof.
  revert up. induction s as [|c s IH]; intros up; [reflexivity|].
  simpl. destruct up; rewrite ?upper_of_lower, ?lower_of_lower, IH; reflexivity.
Qed.

(** The stand-in canonical form does not see the case of letters: two names
    that agree once in lower case have one canonical form. *)
Lemma CanonicalHeaderKey_ignores_case (s s' : string) :
  Sample.lower_case s = Sample.lower_case s' ->
  Sample.CanonicalHeaderKey s = Sample.CanonicalHeaderKey s'.
Proof.
  intros Hsame. unfold Sample.CanonicalHeaderKey.
  rewrite <- (canonical_lower_case true s), Hsame. apply canonical_lower_case.
Qed.

Lemma ExtractHeader_canonical_lookup_witness :
  exists values,
    ExtractHeader Sample.CanonicalHeaderKey "x-test" (Some 0)
      (Sample.world Sample.not_found "")
    = Returned values (Sample.world Sample.not_found "")
    /\ values = ["v1"; "v2"]
    /\ ExtractHeaderValue Sample.CanonicalHeaderKey "x-test" (Some 0)
         (Sample.world Sample.not_found "")
       = Returned (hd "" values) (Sample.world Sample.not_found "").
Proof.
  destruct (ExtractHeader_canonical_lookup Sample.CanonicalHeaderKey "x-test"
              (Some 0) (Sample.world Sample.not_found ""))
    as (values & Hall & Hfirst & _ & _ & Hmap & _).
  exists values. split; [exact Hall|]. split; [|exact Hfirst].
  destruct (Hmap 0 Sample.headers eq_refl eq_refl) as [_ Hpresent].
  apply Hpresent. reflexivity.
Defined.

Example ExtractHeaderValue_first_or_empty :
  let w := Sample.world Sample.not_found "" in
  ExtractHeader Sample.CanonicalHeaderKey "X-Test" (Some 0) w
  = Returned ["v1"; "v2"] w
  /\ ExtractHeaderValue Sample.CanonicalHeaderKey "X-Test" (Some 0) w
     = Returned "v1" w
  /\ ExtractHeaderValue Sample.CanonicalHeaderKey "x-tEST" (Some 0) w
     = Returned "v1" w
  /\ ExtractHeaderValue Sample.CanonicalHeaderKey "Missing" (Some 0) w
     = Returned "" w
  /\ ExtractHeader Sample.CanonicalHeaderKey "X-Test" None w = Returned [] w.
Proof. repeat split; reflexivity. Qed.

(** * Chains of standard decorators *)

Section Chains.

Context {V : Type} (json_Decode : string -> V -> DecodeResult V).
Implicit Types (r base : Responder V) (w : World V) (resp : option ptr)
               (t : Standard) (names : list Standard) (o : Outcome V error).

Lemma decorator_post_action t r resp w :
  decorator_of json_Decode t r resp w
  = post_action json_Decode resp (Responder_Respond r resp w) t.
Proof.
  destruct t; simpl.
  - unfold ByIgnoring, ResponderFunc, Responder_Respond.
    destruct (r resp w); reflexivity.
  - rewrite ByClosing_run.
    destruct (Responder_Respond r resp w); reflexivity.
  - rewrite ByClosingIfError_run.
    destruct (Responder_Respond r resp w) as [[e|] w'|w']; reflexivity.
  - rewrite ByUnmarshallingJSON_run.
    destruct (Responder_Respond r resp w) as [[e|] w'|w']; reflexivity.
  - rewrite WithErrorUnlessStatusCode_run.
    destruct (Responder_Respond r resp w) as [[e|] w'|w']; reflexivity.
  - unfold WithErrorUnlessOK. rewrite WithErrorUnlessStatusCode_run.
    destruct (Responder_Respond r resp w) as [[e|] w'|w']; reflexivity.
Qed.

Lemma chain_fold names base resp w :
  DecorateResponder base (chain_of json_Decode names) resp w
  = fold_left (post_action json_Decode resp) names (base resp w).
Proof.
  revert base. induction names as [|t names IH]; intros base; [reflexivity|].
  simpl. rewrite IH, decorator_post_action. reflexivity.
Qed.

Lemma fold_panicked names resp w :
  fold_left (post_action json_Decode resp) names (Panicked w) = Panicked w.
Proof. induction names as [|t names IH]; [reflexivity|]. simpl. apply IH. Qed.

Lemma close_if_present_body resp w resp' :
  body_to_close resp' (close_if_present resp w) = body_to_close resp' w.
Proof.
  unfold body_to_close.
  destruct (close_if_present_rest resp w) as (-> & _). reflexivity.
Qed.

Lemma count_of_nil {A : Type} (test : A -> bool) : count_of test [] = 0.
Proof. reflexivity. Qed.

Lemma count_of_cons {A : Type} (test : A -> bool) (x : A) (l : list A) :
  count_of test (x :: l)
  = ((if test x then 1 else 0) + count_of test l)%nat.
Proof.
  unfold count_of. rewrite filter_cons.
  destruct (test x); case_decide; try congruence; reflexivity.
Qed.

Lemma count_of_none {A : Type} (test : A -> bool) (l : list A) :
  existsb test l = false -> count_of test l = 0.
Proof.
  induction l as [|x l IH]; [reflexivity|]. simpl.
  rewrite count_of_cons. destruct (test x); simpl; [discriminate|]. exact IH.
Qed.

Lemma fold_error names resp e w :
  exists w1,
    fold_left (post_action json_Decode resp) names (Returned (Some e) w)
    = Returned (Some e) w1
    /\ responses w1 = responses w
    /\ targets w1 = targets w
    /\ (forall b, unread (bodies w1 b) = unread (bodies w b))
    /\ (forall b, closes (bodies w1 b)
                  = (closes (bodies w b)
                     + if bool_decide (body_to_close resp w = Some b)
                       then count_of may_close names else 0)%nat).
Proof.
  revert w. induction names as [|t names IH]; intros w.
  - exists w. repeat split; auto. intros b. rewrite count_of_nil.
    case_bool_decide; lia.
  - cbn [fold_left].
    assert (Hstep : post_action json_Decode resp (Returned (Some e) w) t
                    = Returned (Some e)
                        (if may_close t then close_if_present resp w else w)).
    { destruct t; reflexivity. }
    rewrite Hstep. destruct (IH (if may_close t then close_if_present resp w else w))
      as (w1 & Hrun & Hr & Ht & Hu & Hc).
    exists w1. split; [exact Hrun|]. rewrite count_of_cons.
    destruct (may_close t).
    + destruct (close_if_present_rest resp w) as (Hr' & Ht' & Hu').
      split; [congruence|]. split; [congruence|].
      split; [intros b; rewrite Hu; apply Hu'|].
      intros b. rewrite Hc, close_if_present_body, close_if_present_closes.
      case_bool_decide; lia.
    + repeat split; assumption.
Qed.

End Chains.

(** X1. Decorating in two steps is decorating once with the two lists joined:
    the decorators of the second list wrap those of the first. *)
Theorem DecorateResponder_in_two_steps {V : Type} (r : Responder V)
    (first second : list (RespondDecorator V)) :
  DecorateResponder (DecorateResponder r first) second
  = DecorateResponder r (first ++ second)
  /\ DecorateResponder (CreateResponder first) second
     = CreateResponder (first ++ second).
Proof.
  split; [|unfold CreateResponder]; symmetry; apply DecorateResponder_app.
Qed.

(** X2. [ByIgnoring] may stand anywhere in a list of decorators, or be left
    out: the composed responder has the same outcome on every response and
    in every store. *)
Theorem ByIgnoring_anywhere {V : Type} (r : Responder V)
    (before after : list (RespondDecorator V)) (resp : option ptr) (w : World V) :
  Responder_Respond (DecorateResponder r (before ++ ByIgnoring :: after)) resp w
  = Responder_Respond (DecorateResponder r (before ++ after)) resp w.
Proof.
  rewrite !DecorateResponder_app. reflexivity.
Qed.

(** X3. Every standard decorator calls the inner responder once, first, and
    then acts on its outcome alone.  So the outcome of a chain of standard
    decorators is the outcome of the base, put through the post-actions of the
    decorators in the order of the list: the decorator listed first acts
    first. *)
Theorem chain_runs_post_actions_in_list_order {V : Type}
    (json_Decode : string -> V -> DecodeResult V) (names : list Standard)
    (base : Responder V) (resp : option ptr) (w : World V) :
  Responder_Respond (DecorateResponder base (chain_of json_Decode names)) resp w
  = fold_left (post_action json_Decode resp) names (Responder_Respond base resp w).
Proof. apply chain_fold. Qed.

(** X4. An error of the base comes out of every chain of standard decorators
    as it went in: no decorator replaces it, decodes, or panics, whatever the
    response is.  The store changes in one way only: the body of the response
    has been closed once for each [ByClosing] and [ByClosingIfError] of the
    chain. *)
Theorem error_passes_through_chain {V : Type}
    (json_Decode : string -> V -> DecodeResult V) (names : list Standard)
    (base : Responder V) (resp : option ptr) (w : World V)
    (e : error_value) (w0 : World V) :
  Responder_Respond base resp w = Returned (Some e) w0 ->
  exists w1,
    Responder_Respond (DecorateResponder base (chain_of json_Decode names)) resp w
    = Returned (Some e) w1
    /\ responses w1 = responses w0
    /\ targets w1 = targets w0
    /\ (forall b, unread (bodies w1 b) = unread (bodies w0 b))
    /\ (forall b, closes (bodies w1 b)
                  = (closes (bodies w0 b)
                     + if bool_decide (body_to_close resp w0 = Some b)
                       then count_of may_close names else 0)%nat).
Proof.
  intros Hbase. unfold Responder_Respond in *. rewrite chain_fold, Hbase.
  apply fold_error.
Qed.

Lemma error_passes_through_chain_witness :
  exists w1,
    Responder_Respond
      (DecorateResponder Sample.failing
         (chain_of Sample.json_Decode
            [Closing; UnmarshallingJSON 0; ErrorUnlessOK; ClosingIfError]))
      (Some 0) (Sample.world Sample.not_found_no_request Sample.good_body)
    = Returned (Some (errorString "inner failure")) w1
    /\ closes (bodies w1 0) = 2
    /\ unread (bodies w1 0) = Sample.good_body.
Proof.
  destruct (error_passes_through_chain Sample.json_Decode
              [Closing; UnmarshallingJSON 0; ErrorUnlessOK; ClosingIfError]
              Sample.failing (Some 0)
              (Sample.world Sample.not_found_no_request Sample.good_body)
              (errorString "inner failure") _ eq_refl)
    as (w1 & Hrun & _ & _ & Hu & Hc).
  exists w1. split; [exact Hrun|]. split; [exact (Hc 0)|exact (Hu 0)].
Defined.

(** X5. A panic of the base comes out of every chain of standard decorators
    with the store of the moment of the panic: no decorator recovers, and none
    closes the body on the way out. *)
Theorem panic_passes_through_chain {V : Type}
    (json_Decode : string -> V -> DecodeResult V) (names : list Standard)
    (base : Responder V) (resp : option ptr) (w w0 : World V) :
  Responder_Respond base resp w = Panicked w0 ->
  Responder_Respond (DecorateResponder base (chain_of json_Decode names)) resp w
  = Panicked w0.
Proof.
  intros Hbase. unfold Responder_Respond in *. rewrite chain_fold, Hbase.
  apply fold_panicked.
Qed.

Lemma panic_passes_through_chain_witness :
  let w := Sample.world Sample.not_found "" in
  Responder_Respond
    (DecorateResponder (Sample.panicking always_succeeds)
       (chain_of Sample.json_Decode [Closing; ClosingIfError]))
    (Some 0) w
  = Panicked w.
Proof.
  intros w.
  exact (panic_passes_through_chain Sample.json_Decode [Closing; ClosingIfError]
           (Sample.panicking always_succeeds) (Some 0) w w eq_refl).
Defined.

Section ChainInvariants.

Context {V : Type} (json_Decode : string -> V -> DecodeResult V).
Implicit Types (w : World V) (resp : option ptr) (t : Standard)
               (names : list Standard) (o : Outcome V error).

Lemma fold_nil_response names w :
  fold_left (post_action json_Decode None) names (Returned None w)
  = if existsb dereferences names then Panicked w else Returned None w.
Proof.
  induction names as [|t names IH]; [reflexivity|].
  cbn [fold_left existsb].
  destruct t; simpl; rewrite ?fold_panicked; try exact IH; reflexivity.
Qed.

(** One post-action, seen from the stores before and after it. *)
Lemma post_action_store resp o t :
  let w0 := store_of o in
  let w1 := store_of (post_action json_Decode resp o t) in
  responses w1 = responses w0
  /\ (forall b, body_to_close resp w0 <> Some b -> bodies w1 b = bodies w0 b)
  /\ (forall v, decodes_into v t = false -> targets w1 v = targets w0 v)
  /\ (forall b, may_close t = false ->
                closes (bodies w1 b) = closes (bodies w0 b)).
Proof.
  assert (Hclose : forall w,
            responses (close_if_present resp w) = responses w
            /\ (forall b, body_to_close resp w <> Some b ->
                          bodies (close_if_present resp w) b = bodies w b)
            /\ (forall v, targets (close_if_present resp w) v = targets w v)).
  { intros w. unfold close_if_present, body_to_close.
    destruct resp as [p|]; [|auto].
    destruct (Body (responses w p)) as [b0|]; [|auto].
    repeat split. intros b Hb. unfold close_body; simpl.
    case_decide; [congruence|reflexivity]. }
  destruct o as [err w|w]; simpl; [|auto].
  destruct t; simpl; try (repeat split; auto; fail).
  - destruct (Hclose w) as (Hr & Hb & Ht). repeat split; auto. discriminate.
  - destruct err as [e|]; [|repeat split; auto].
    destruct (Hclose w) as (Hr & Hb & Ht). repeat split; auto. discriminate.
  - unfold unmarshalled. destruct err as [e|]; [repeat split; auto|].
    destruct (body_to_close resp w) as [b0|]; simpl; [|repeat split; auto].
    repeat split.
    + intros b Hb. case_decide; [congruence|reflexivity].
    + intros v' Hv. case_bool_decide; [discriminate|].
      case_decide; [congruence|reflexivity].
    + intros b _. case_decide; subst; reflexivity.
  - unfold checked. destruct err as [e|]; [repeat split; auto|].
    destruct resp as [p|]; [|repeat split; auto].
    simpl. case_bool_decide; [repeat split; auto|].
    destruct (Request (responses w p)); repeat split; auto.
  - unfold checked. destruct err as [e|]; [repeat split; auto|].
    destruct resp as [p|]; [|repeat split; auto].
    simpl. case_bool_decide; [repeat split; auto|].
    destruct (Request (responses w p)); repeat split; auto.
Qed.

Lemma fold_store names resp o :
  let w0 := store_of o in
  let w1 := store_of (fold_left (post_action json_Decode resp) names o) in
  responses w1 = responses w0
  /\ (forall b, body_to_close resp w0 <> Some b -> bodies w1 b = bodies w0 b)
  /\ (forall v, existsb (decodes_into v) names = false ->
                targets w1 v = targets w0 v)
  /\ (forall b, existsb may_close names = false ->
                closes (bodies w1 b) = closes (bodies w0 b)).
Proof.
  revert o. induction names as [|t names IH]; intros o; [simpl; auto|].
  cbn [fold_left existsb]. cbv zeta.
  destruct (post_action_store resp o t) as (Hr & Hb & Ht & Hc).
  destruct (IH (post_action json_Decode resp o t)) as (Hr' & Hb' & Ht' & Hc').
  split; [congruence|]. split; [|split].
  - intros b Hne. rewrite Hb'; [auto|].
    unfold body_to_close in *. rewrite Hr. exact Hne.
  - intros v Hv. apply orb_false_iff in Hv as [Hv1 Hv2].
    rewrite Ht' by assumption. auto.
  - intros b Hn. apply orb_false_iff in Hn as [Hn1 Hn2].
    rewrite Hc' by assumption. auto.
Qed.

(** A post-action that returns has closed the body at most once, and once if
    it is [ByClosing]'s. *)
Lemma post_action_returned resp err0 w0 t err1 w1 b :
  post_action json_Decode resp (Returned err0 w0) t = Returned err1 w1 ->
  body_to_close resp w0 = Some b ->
  (closes (bodies w0 b) + (if always_closes t then 1 else 0)
   <= closes (bodies w1 b)
   <= closes (bodies w0 b) + (if may_close t then 1 else 0))%nat.
Proof.
  intros Hrun Hbody.
  assert (Hclosed : closes (bodies (close_if_present resp w0) b)
                    = S (closes (bodies w0 b))).
  { rewrite close_if_present_closes, bool_decide_eq_true_2 by assumption. lia. }
  destruct t; simpl in Hrun.
  - injection Hrun as <- <-. simpl. lia.
  - injection Hrun as <- <-. simpl. lia.
  - injection Hrun as <- <-. simpl. destruct err0; lia.
  - assert (Hsame := post_action_store resp (Returned err0 w0) (UnmarshallingJSON v)).
    cbv zeta in Hsame. simpl in Hsame. rewrite Hrun in Hsame.
    destruct Hsame as (_ & _ & _ & Hc). simpl in *. rewrite Hc by reflexivity. lia.
  - assert (Hsame := post_action_store resp (Returned err0 w0)
                       (ErrorUnlessStatusCode codes)).
    cbv zeta in Hsame. simpl in Hsame. rewrite Hrun in Hsame.
    destruct Hsame as (_ & _ & _ & Hc). simpl in *. rewrite Hc by reflexivity. lia.
  - assert (Hsame := post_action_store resp (Returned err0 w0) ErrorUnlessOK).
    cbv zeta in Hsame. simpl in Hsame. rewrite Hrun in Hsame.
    destruct Hsame as (_ & _ & _ & Hc). simpl in *. rewrite Hc by reflexivity. lia.
Qed.

Lemma fold_returned names resp err0 w0 err1 w1 b :
  fold_left (post_action json_Decode resp) names (Returned err0 w0)
  = Returned err1 w1 ->
  body_to_close resp w0 = Some b ->
  (closes (bodies w0 b) + count_of always_closes names
   <= closes (bodies w1 b)
   <= closes (bodies w0 b) + count_of may_close names)%nat.
Proof.
  revert err0 w0. induction names as [|t names IH]; intros err0 w0 Hrun Hbody.
  - injection Hrun as <- <-. rewrite !count_of_nil. lia.
  - cbn [fold_left] in Hrun.
    destruct (post_action json_Decode resp (Returned err0 w0) t)
      as [err' w'|w'] eqn:Hstep.
    + pose proof (post_action_returned _ _ _ _ _ _ _ Hstep Hbody) as Hbound.
      assert (Hbody' : body_to_close resp w' = Some b).
      { pose proof (post_action_store resp (Returned err0 w0) t) as Hs.
        cbv zeta in Hs. rewrite Hstep in Hs. destruct Hs as (Hr & _).
        simpl in Hr. unfold body_to_close in *. rewrite Hr. exact Hbody. }
      specialize (IH _ _ Hrun Hbody'). rewrite !count_of_cons. lia.
    + rewrite fold_panicked in Hrun. discriminate.
Qed.

End ChainInvariants.

(** X6. The nil check is in [Respond] alone.  A responder made by
    [CreateResponder] from standard decorators and called on the nil response
    panics exactly when the chain holds a decorator that reads the response
    ([ByUnmarshallingJSON], [WithErrorUnlessStatusCode], [WithErrorUnlessOK]);
    a chain of the other decorators returns nil.  The store is untouched
    either way. *)
Theorem CreateResponder_on_nil_response {V : Type}
    (json_Decode : string -> V -> DecodeResult V) (names : list Standard)
    (w : World V) :
  Responder_Respond (CreateResponder (chain_of json_Decode names)) None w
  = if existsb dereferences names then Panicked w else Returned None w.
Proof.
  unfold Responder_Respond, CreateResponder. rewrite chain_fold.
  apply fold_nil_response.
Qed.

(** X7. A chain of standard decorators without [ByClosing] and
    [ByClosingIfError] never calls [Close]: whether it returns or panics,
    every body has been closed as often as the base left it. *)
Theorem chain_without_closing_never_closes {V : Type}
    (json_Decode : string -> V -> DecodeResult V) (names : list Standard)
    (base : Responder V) (resp : option ptr) (w : World V) (b : body_ref) :
  existsb may_close names = false ->
  closes_of b (Responder_Respond
                 (DecorateResponder base (chain_of json_Decode names)) resp w)
  = closes_of b (Responder_Respond base resp w).
Proof.
  intros Hnone. unfold Responder_Respond. rewrite chain_fold.
  destruct (fold_store json_Decode names resp (base resp w)) as (_ & _ & _ & Hc).
  specialize (Hc b Hnone). revert Hc.
  destruct (fold_left _ _ _), (base resp w); simpl; auto.
Qed.

Lemma chain_without_closing_never_closes_witness :
  closes_of 0
    (Responder_Respond
       (DecorateResponder always_succeeds
          (chain_of Sample.json_Decode
             [ErrorUnlessOK; Ignoring; UnmarshallingJSON 0]))
       (Some 0) (Sample.world Sample.not_found Sample.good_body))
  = 0.
Proof.
  exact (chain_without_closing_never_closes Sample.json_Decode
           [ErrorUnlessOK; Ignoring; UnmarshallingJSON 0] always_succeeds
           (Some 0) (Sample.world Sample.not_found Sample.good_body) 0 eq_refl).
Defined.

(** X8. When a chain of standard decorators returns, the body of the response
    has been closed at least once for each [ByClosing] of the chain, wherever
    it stands, and at most once for each [ByClosing] and [ByClosingIfError]:
    one [ByClosing] is enough to have the body closed, and two close it
    twice. *)
Theorem chain_closes_once_per_ByClosing {V : Type}
    (json_Decode : string -> V -> DecodeResult V) (names : list Standard)
    (base : Responder V) (resp : option ptr) (w : World V)
    (err0 err1 : error) (w0 w1 : World V) (b : body_ref) :
  Responder_Respond base resp w = Returned err0 w0 ->
  body_to_close resp w0 = Some b ->
  Responder_Respond (DecorateResponder base (chain_of json_Decode names)) resp w
  = Returned err1 w1 ->
  (closes (bodies w0 b) + count_of always_closes names
   <= closes (bodies w1 b)
   <= closes (bodies w0 b) + count_of may_close names)%nat.
Proof.
  unfold Responder_Respond. intros Hbase Hbody Hrun.
  rewrite chain_fold, Hbase in Hrun.
  exact (fold_returned json_Decode names resp err0 w0 err1 w1 b Hrun Hbody).
Qed.

Lemma chain_closes_once_per_ByClosing_witness :
  let w := Sample.world Sample.created Sample.good_body in
  let names := [Closing; ErrorUnlessStatusCode [201%Z]; ClosingIfError;
                UnmarshallingJSON 0; Closing] in
  (closes (bodies w 0) + 2
   <= closes_of 0 (Responder_Respond
                     (DecorateResponder always_succeeds
                        (chain_of Sample.json_Decode names)) (Some 0) w)
   <= closes (bodies w 0) + 3)%nat.
Proof.
  intros w names.
  exact (chain_closes_once_per_ByClosing Sample.json_Decode names always_succeeds
           (Some 0) w None _ w _ 0 eq_refl eq_refl eq_refl).
Defined.

(** X9. A chain of standard decorators touches nothing but the response it
    is given: whether it returns or panics, the response structs are as the
    base left them, so is every body other than the body of that response,
    and so is every target that no [ByUnmarshallingJSON] of the chain decodes
    into. *)
Theorem chain_touches_its_response_only {V : Type}
    (json_Decode : string -> V -> DecodeResult V) (names : list Standard)
    (base : Responder V) (resp : option ptr) (w : World V) :
  let w0 := store_of (Responder_Respond base resp w) in
  let w1 := store_of (Responder_Respond
                        (DecorateResponder base (chain_of json_Decode names))
                        resp w) in
  responses w1 = responses w0
  /\ (forall b, body_to_close resp w0 <> Some b -> bodies w1 b = bodies w0 b)
  /\ (forall v, existsb (decodes_into v) names = false ->
                targets w1 v = targets w0 v).
Proof.
  unfold Responder_Respond. rewrite chain_fold.
  destruct (fold_store json_Decode names resp (base resp w)) as (Hr & Hb & Ht & _).
  auto.
Qed.

(** * Decorators side by side *)

(** X10. Two status checks, one around the other, accept the codes both
    lists hold: around every inner responder and on every response, the
    outcome is that of one check against the codes common to the two lists,
    panics included. *)
Theorem stacked_status_checks_intersect {V : Type} (inner outer : list Z)
    (r : Responder V) (resp : option ptr) (w : World V) :
  Responder_Respond
    (WithErrorUnlessStatusCode outer (WithErrorUnlessStatusCode inner r)) resp w
  = Responder_Respond
      (WithErrorUnlessStatusCode (list_intersection inner outer) r) resp w.
Proof.
  unfold Responder_Respond. rewrite !WithErrorUnlessStatusCode_run.
  unfold Responder_Respond. rewrite WithErrorUnlessStatusCode_run.
  unfold Responder_Respond.
  destruct (r resp w) as [[e|] w'|w']; try reflexivity.
  destruct resp as [p|]; [|reflexivity]. simpl.
  pose proof (list_elem_of_intersection inner outer (StatusCode (responses w' p)))
    as Hboth.
  repeat case_bool_decide; try reflexivity; try tauto;
    destruct (Request (responses w' p)); reflexivity.
Qed.

(** X11. [ByClosing] and a status check may swap places: the two orders panic
    on the same calls, and when they return they return the same result and
    leave the same store.  (Where they panic, the stores differ: the body is
    closed already when the check is the outer one.) *)
Theorem ByClosing_commutes_with_status_check {V : Type} (codes : list Z)
    (r : Responder V) (resp : option ptr) (w : World V) :
  let check_outside :=
    Responder_Respond (WithErrorUnlessStatusCode codes (ByClosing r)) resp w in
  let close_outside :=
    Responder_Respond (ByClosing (WithErrorUnlessStatusCode codes r)) resp w in
  panics check_outside = panics close_outside
  /\ (panics check_outside = false -> check_outside = close_outside).
Proof.
  unfold Responder_Respond. rewrite WithErrorUnlessStatusCode_run, ByClosing_run.
  unfold Responder_Respond. rewrite ByClosing_run, WithErrorUnlessStatusCode_run.
  unfold Responder_Respond.
  destruct (r resp w) as [[e|] w'|w']; try (split; reflexivity).
  destruct resp as [p|]; [|split; reflexivity].
  destruct (close_if_present_rest (Some p) w') as (Hr & _). rewrite Hr.
  simpl. case_bool_decide; [split; reflexivity|].
  destruct (Request (responses w' p)); simpl; split; try reflexivity.
  discriminate.
Qed.

(** X12. [ByClosingIfError] closes the body on the errors of what it wraps,
    and of nothing else.  After a success of the inner responder, on a
    response that has its body and its request: listed after the status
    check it closes the body when the check fails; listed before the check it
    leaves the body open, though the same error comes back.  On an expected
    status neither order closes the body. *)
Theorem ByClosingIfError_sees_inner_errors_only {V : Type} (codes : list Z)
    (r : Responder V) (p : ptr) (w w' : World V) (b : body_ref)
    (rq : http_Request) :
  let rs := responses w' p in
  let status_error :=
    baseError "autorest" "WithErrorUnlessStatusCode" (StatusCode rs)
      (status_message (Method rq) (URL rq) (Status rs)) in
  let check_then_close :=
    DecorateResponder r [WithErrorUnlessStatusCode codes; ByClosingIfError] in
  let close_then_check :=
    DecorateResponder r [ByClosingIfError; WithErrorUnlessStatusCode codes] in
  Responder_Respond r (Some p) w = Returned None w' ->
  Body rs = Some b ->
  Request rs = Some rq ->
  if bool_decide (StatusCode rs ∈ codes)
  then Responder_Respond check_then_close (Some p) w = Returned None w'
       /\ Responder_Respond close_then_check (Some p) w = Returned None w'
  else Responder_Respond check_then_close (Some p) w
       = Returned (Some status_error) (close_body b w')
       /\ Responder_Respond close_then_check (Some p) w
          = Returned (Some status_error) w'.
Proof.
  intros rs status_error check_then_close close_then_check Hinner Hbody Hrq.
  subst check_then_close close_then_check. unfold Responder_Respond in *. simpl.
  rewrite ByClosingIfError_run, WithErrorUnlessStatusCode_run.
  unfold Responder_Respond.
  rewrite WithErrorUnlessStatusCode_run, ByClosingIfError_run.
  unfold Responder_Respond. rewrite Hinner. simpl. fold rs.
  case_bool_decide; [split; reflexivity|].
  rewrite Hrq. unfold close_if_present. fold rs. rewrite Hbody.
  split; reflexivity.
Qed.

Lemma ByClosingIfError_sees_inner_errors_only_witness :
  let w := Sample.world Sample.server_error "" in
  (exists e,
     Responder_Respond
       (DecorateResponder always_succeeds
          [WithErrorUnlessStatusCode [200%Z]; ByClosingIfError]) (Some 0) w
     = Returned (Some e) (close_body 0 w))
  /\ (exists e,
        Responder_Respond
          (DecorateResponder always_succeeds
             [ByClosingIfError; WithErrorUnlessStatusCode [200%Z]]) (Some 0) w
        = Returned (Some e) w).
Proof.
  intros w.
  destruct (ByClosingIfError_sees_inner_errors_only [200%Z] always_succeeds 0 w w 0
              Sample.request eq_refl eq_refl eq_refl) as [Hafter Hbefore].
  split; eexists; [exact Hafter|exact Hbefore].
Defined.

(** X13. With no code to accept, [WithErrorUnlessStatusCode] accepts
    nothing: around every inner responder and on every response the call
    returns an error or panics, and never returns success. *)
Theorem no_codes_accept_nothing {V : Type} (r : Responder V)
    (resp : option ptr) (w : World V) :
  let result := Responder_Respond (WithErrorUnlessStatusCode [] r) resp w in
  returns_error result \/ panics result = true.
Proof.
  unfold Responder_Respond. rewrite WithErrorUnlessStatusCode_run.
  unfold Responder_Respond.
  destruct (r resp w) as [[e|] w'|w']; simpl; [left; eexists _, _; reflexivity| |auto].
  destruct resp as [p|]; [|auto]. simpl.
  destruct (Request (responses w' p)); [left; eexists _, _; reflexivity|auto].
Qed.

(** X14. Decoding uses the body up.  Of two [ByUnmarshallingJSON] around an
    inner success, the outer one runs only if the inner one decoded without
    error, and its decoder is given what the inner decoder left of the body,
    not the body again. *)
Theorem second_decoder_reads_the_rest {V : Type}
    (json_Decode : string -> V -> DecodeResult V) (v1 v2 : target_ref)
    (r : Responder V) (p : ptr) (w w' : World V) (b : body_ref) :
  let content := unread (bodies w' b) in
  let d1 := json_Decode content (targets w' v1) in
  let w1 := after_Decode b v1 d1 w' in
  let rest := string_drop (pulled d1) content in
  let d2 := json_Decode rest (targets w1 v2) in
  let twice :=
    Responder_Respond
      (ByUnmarshallingJSON json_Decode v2 (ByUnmarshallingJSON json_Decode v1 r))
      (Some p) w in
  Responder_Respond r (Some p) w = Returned None w' ->
  Body (responses w' p) = Some b ->
  match decode_err d1 with
  | Some e =>
      twice = Returned (Some (decoding_error e (string_take (pulled d1) content))) w1
  | None =>
      twice = Returned
                (match decode_err d2 with
                 | Some e => Some (decoding_error e (string_take (pulled d2) rest))
                 | None => None
                 end)
                (after_Decode b v2 d2 w1)
  end.
Proof.
  intros content d1 w1 rest d2 twice Hinner Hbody. subst twice.
  unfold Responder_Respond in *. rewrite ByUnmarshallingJSON_run.
  unfold Responder_Respond. rewrite ByUnmarshallingJSON_run.
  unfold Responder_Respond. rewrite Hinner. simpl. rewrite Hbody.
  fold content. fold d1. fold w1.
  destruct (decode_err d1) as [e|]; [reflexivity|].
  unfold body_to_close.
  assert (Hr : responses w1 = responses w') by reflexivity.
  rewrite Hr, Hbody.
  assert (Hrest : unread (bodies w1 b) = rest).
  { unfold w1, after_Decode; simpl. case_decide; [reflexivity|congruence]. }
  rewrite Hrest. reflexivity.
Qed.

Lemma second_decoder_reads_the_rest_witness :
  let w := Sample.world Sample.created Sample.good_body in
  exists e w2,
    Responder_Respond
      (ByUnmarshallingJSON Sample.json_Decode 1
         (ByUnmarshallingJSON Sample.json_Decode 0 always_succeeds))
      (Some 0) w
    = Returned (Some e) w2
    /\ targets w2 0 = Sample.mk_target 1
    /\ unread (bodies w2 0) = "".
Proof.
  intros w.
  assert (Hrun := second_decoder_reads_the_rest Sample.json_Decode 0 1
                    always_succeeds 0 w w 0 eq_refl eq_refl).
  eexists _, _. split; [exact Hrun|]. split; reflexivity.
Defined.

Section ClosingChains.

Context {V : Type} (json_Decode : string -> V -> DecodeResult V).

Lemma fold_without_dereference (names : list Standard) (resp : option ptr)
    (err : error) (w : World V) :
  existsb dereferences names = false ->
  exists w1,
    fold_left (post_action json_Decode resp) names (Returned err w)
    = Returned err w1
    /\ responses w1 = responses w
    /\ targets w1 = targets w
    /\ (forall b, unread (bodies w1 b) = unread (bodies w b))
    /\ (forall b, closes (bodies w1 b)
                  = (closes (bodies w b)
                     + if bool_decide (body_to_close resp w = Some b)
                       then count_of (closes_after err) names else 0)%nat).
Proof.
  revert w. induction names as [|t names IH]; intros w Hnone.
  - exists w. repeat split; auto. intros b. rewrite count_of_nil.
    case_bool_decide; lia.
  - cbn [existsb] in Hnone. apply orb_false_iff in Hnone as [Ht Hnames].
    cbn [fold_left].
    assert (Hstep : post_action json_Decode resp (Returned err w) t
                    = Returned err
                        (if closes_after err t then close_if_present resp w else w)).
    { destruct t, err; try reflexivity; discriminate. }
    rewrite Hstep.
    destruct (IH (if closes_after err t then close_if_present resp w else w) Hnames)
      as (w1 & Hrun & Hr & Htg & Hu & Hc).
    exists w1. split; [exact Hrun|]. rewrite count_of_cons.
    destruct (closes_after err t).
    + destruct (close_if_present_rest resp w) as (Hr' & Ht' & Hu').
      split; [congruence|]. split; [congruence|].
      split; [intros b; rewrite Hu; apply Hu'|].
      intros b. rewrite Hc, close_if_present_body, close_if_present_closes.
      case_bool_decide; lia.
    + repeat split; assumption.
Qed.

End ClosingChains.

(** X15. A chain of [ByIgnoring], [ByClosing] and [ByClosingIfError] alone
    never panics and never changes the result: what the base returns comes
    back, success or error, on every response, the nil one included.  The
    body of the response has been closed once for each [ByClosing], and once
    more for each [ByClosingIfError] if the result is an error; nothing else
    in the store has changed. *)
Theorem closing_chain_returns_base_result {V : Type}
    (json_Decode : string -> V -> DecodeResult V) (names : list Standard)
    (base : Responder V) (resp : option ptr) (w : World V)
    (err : error) (w0 : World V) :
  existsb dereferences names = false ->
  Responder_Respond base resp w = Returned err w0 ->
  exists w1,
    Responder_Respond (DecorateResponder base (chain_of json_Decode names)) resp w
    = Returned err w1
    /\ responses w1 = responses w0
    /\ targets w1 = targets w0
    /\ (forall b, unread (bodies w1 b) = unread (bodies w0 b))
    /\ (forall b, closes (bodies w1 b)
                  = (closes (bodies w0 b)
                     + if bool_decide (body_to_close resp w0 = Some b)
                       then count_of (closes_after err) names else 0)%nat).
Proof.
  intros Hnone Hbase. unfold Responder_Respond in *. rewrite chain_fold, Hbase.
  apply fold_without_dereference. exact Hnone.
Qed.

Lemma closing_chain_returns_base_result_witness :
  exists w1,
    Responder_Respond
      (DecorateResponder always_succeeds
         (chain_of Sample.json_Decode [Closing; ClosingIfError; Ignoring; Closing]))
      (Some 0) (Sample.world Sample.not_found "")
    = Returned None w1
    /\ closes (bodies w1 0) = 2.
Proof.
  destruct (closing_chain_returns_base_result Sample.json_Decode
              [Closing; ClosingIfError; Ignoring; Closing] always_succeeds (Some 0)
              (Sample.world Sample.not_found "") None _ eq_refl eq_refl)
    as (w1 & Hrun & _ & _ & _ & Hc).
  exists w1. split; [exact Hrun|exact (Hc 0)].
Defined.

(** X16. [ExtractHeader] looks under the canonical form of the name and
    nowhere else: values that a header map holds under the name as given,
    when that is not its canonical form, are not found. *)
Theorem ExtractHeader_misses_other_spellings {V : Type}
    (CanonicalHeaderKey : string -> string) (header : string)
    (values : list string) (p : ptr) (w : World V) :
  CanonicalHeaderKey header <> header ->
  Header (responses w p) = Some (<[header := values]> ∅) ->
  ExtractHeader CanonicalHeaderKey header (Some p) w = Returned [] w
  /\ ExtractHeaderValue CanonicalHeaderKey header (Some p) w = Returned "" w.
Proof.
  intros Hother Hmap. unfold ExtractHeaderValue, ExtractHeader. run_go.
  rewrite Hmap. rewrite lookup_insert_ne by congruence.
  rewrite lookup_empty. split; reflexivity.
Qed.

Lemma ExtractHeader_misses_other_spellings_witness :
  let w := Sample.world
             (mk_Response "200 OK" 200%Z (Some (<["x-test" := ["v1"]]> ∅))
                None None) "" in
  ExtractHeader Sample.CanonicalHeaderKey "x-test" (Some 0) w = Returned [] w
  /\ ExtractHeaderValue Sample.CanonicalHeaderKey "x-test" (Some 0) w
     = Returned "" w.
Proof.
  intros w.
  apply (ExtractHeader_misses_other_spellings Sample.CanonicalHeaderKey "x-test"
           ["v1"] 0 w); [|reflexivity].
  intros Heq. discriminate Heq.
Defined.
